(** * MyTasksList: the "my tasks" listing screen of epictrack-web

    A shallow embedding of
    [src/epictrack-web/src/components/myTasks/MyTasksList.tsx]:
    the derivation of the assignee filter options, the assignee column
    (accessor and filter predicate), the facet re-derivation effect, the
    status cell, the two fetches run on mount and the filter cache
    handler, followed by the properties of the screen that are checked
    against that code. *)

From stdpp Require Import base option list strings gmap.
From Stdlib Require Import ZArith.

Local Open Scope Z_scope.

(** ** JavaScript strings *)

Module JsString.

(** [s.startsWith(sub)] *)
Fixpoint startsWith (s sub : string) {struct sub} : bool :=
  match sub, s with
  | EmptyString, _ => true
  | String _ _, EmptyString => false
  | String c sub', String d s' =>
      if decide (c = d) then startsWith s' sub' else false
  end.

(** [s.includes(sub)]: [sub] occurs at some position of [s]. *)
Fixpoint includes (s sub : string) : bool :=
  startsWith s sub ||
  match s with
  | EmptyString => false
  | String _ s' => includes s' sub
  end.

(** [arr.join(sep)] on an array of strings. *)
Fixpoint join (sep : string) (arr : list string) : string :=
  match arr with
  | [] => ""
  | [x] => x
  | x :: rest => x +:+ sep +:+ join sep rest
  end.

(** Truthiness of a string: only the empty string is falsy. *)
Definition truthy (s : string) : bool :=
  match s with EmptyString => false | String _ _ => true end.

End JsString.

(** ** JavaScript [Set] of strings and [Array.from]

    A [Set] keeps its members in insertion order; adding a member that
    is already present changes nothing. *)

Module JsSet.

Definition add (s : list string) (x : string) : list string :=
  if decide (x ∈ s) then s else s ++ [x].

(** [new Set(iterable)] adds the elements from left to right. *)
Definition new (xs : list string) : list string := foldl add [] xs.

(** [Array.from(set)] lists the members in insertion order. *)
Definition Array_from (s : list string) : list string := s.

End JsSet.

(** ** JavaScript values, for the code that indexes tasks dynamically

    The facet effect reads [w[key][accessor]] under [@ts-ignore], so it
    sees tasks as plain objects.  Objects are references into a store;
    [===] on two references compares the references. *)

Module Js.

Definition loc := positive.

Inductive value :=
  | VUndefined
  | VNull
  | VBool (b : bool)
  | VNaN
  | VNum (n : Z)
  | VStr (s : string)
  | VObj (l : loc).

#[global] Instance value_eq_dec : EqDecision value.
Proof. solve_decision. Defined.

(** The properties of the objects of the payload. *)
Abbreviation store := (gmap loc (gmap string value)).

(** [ToBoolean]: what [cond ? a : b] and [a && b] test. *)
Definition truthy (v : value) : bool :=
  match v with
  | VUndefined | VNull | VNaN => false
  | VBool b => b
  | VNum n => negb (bool_decide (n = 0))
  | VStr s => JsString.truthy s
  | VObj _ => true
  end.

(** [a === b]: [NaN] is not equal to itself, every other value is
    equal to itself and to nothing else. *)
Definition strict_eq (a b : value) : bool :=
  match a, b with
  | VNaN, _ | _, VNaN => false
  | _, _ => bool_decide (a = b)
  end.

(** The property [k] of a value that is neither [undefined] nor
    [null].  A missing property reads as [undefined]; so does any of
    the keys this file reads ([start_date], [end_date], [progress],
    [assigned], [title]) on a string, a number or a boolean. *)
Definition read (σ : store) (v : value) (k : string) : value :=
  match v with
  | VObj l => default VUndefined (σ !! l ≫= (.!! k))
  | _ => VUndefined
  end.

(** [v[k]]; [None] is the [TypeError] thrown on [undefined] and
    [null]. *)
Definition get (σ : store) (v : value) (k : string) : option value :=
  match v with
  | VUndefined | VNull => None
  | _ => Some (read σ v k)
  end.

Section Arrays.
Context {A : Type}.

Fixpoint findIndex_from (p : A → bool) (i : Z) (arr : list A) : Z :=
  match arr with
  | [] => -1
  | x :: rest => if p x then i else findIndex_from p (i + 1) rest
  end.

(** [arr.findIndex(p)]: the first index whose element satisfies
    [p], or [-1]. *)
Definition findIndex (p : A → bool) (arr : list A) : Z :=
  findIndex_from p 0 arr.

Fixpoint filter_from (cb : A → Z → list A → bool)
    (arr : list A) (i : Z) (rest : list A) : list A :=
  match rest with
  | [] => []
  | x :: rest' =>
      if cb x i arr then x :: filter_from cb arr (i + 1) rest'
      else filter_from cb arr (i + 1) rest'
  end.

(** [arr.filter((ele, index, arr) => ...)] *)
Definition filter (cb : A → Z → list A → bool) (arr : list A) : list A :=
  filter_from cb arr 0 arr.

(** [arr.find(p)]: the first element that satisfies [p]; [None] is
    [undefined]. *)
Fixpoint find (p : A → bool) (arr : list A) : option A :=
  match arr with
  | [] => None
  | x :: rest => if p x then Some x else find p rest
  end.
End Arrays.

End Js.

(** ** Data model *)

(** The staff member named by an assignee record. *)
Record StaffName := { first_name : string; last_name : string }.

(** One entry of [task.assignees]: [{ assignee: { first_name, last_name } }]. *)
Record TaskAssignee := { assignee : StaffName }.

(** A task.  The interface [MyTask] is declared in [models/task]; the
    component reads it in two ways, and both are kept: the typed field
    [assignees], which may be absent ([None]), and the properties by
    name that the facet effect indexes under [@ts-ignore]. *)
Record MyTask := {
  assignees : option (list TaskAssignee);
  props : gmap string Js.value;
}.

(** [w[key]] on a task; a missing property is [undefined]. *)
Definition index (w : MyTask) (key : string) : Js.value :=
  default Js.VUndefined (props w !! key).

(** A staff record ([models/staff]); the screen stores the list and
    reads no field of it. *)
Abbreviation Staff := (gmap string Js.value).

(** [{ id, value }] of [MasterTrackTable/type], as this file builds it. *)
Module ColumnFilter.
Record t := { id : string; value : list string }.
End ColumnFilter.

(** [state.user.userDetail], the fields used here. *)
Record UserDetail := { firstName : string; lastName : string }.

(** Modelled from the spec: the status enumeration of [models/taskEvent]
    ("status (enumerated: not-started, in-progress, completed)"), whose
    declaration is not part of this file. *)
Inductive EVENT_STATUS := NOT_STARTED | INPROGRESS | COMPLETED.

#[global] Instance EVENT_STATUS_eq_dec : EqDecision EVENT_STATUS.
Proof. solve_decision. Defined.

(** One entry of the [statusOptions] table of [models/taskEvent]. *)
Module StatusOption.
Record t := { label : string; value : EVENT_STATUS }.
End StatusOption.

(** A toast handed to [showNotification]. *)
Record Notification := { message : string; type : string }.

(** What a service call resolves to. *)
Record Response (D : Type) := { status : Z; data : D }.
Arguments status {D} _.
Arguments data {D} _.

(** How an awaited promise settles. *)
Inductive Promise (A : Type) :=
  | Resolved (a : A)
  | Rejected.
Arguments Resolved {A} a.
Arguments Rejected {A}.

(** ** The state the component works on

    The [useState] cells of the component, the value of the cached
    filter hook, and the three things around it that it touches or
    reads: the filter cache, the toasts shown, and the [loading] flag of
    [MasterContext]. *)
Record State := {
  columnFilters : list ColumnFilter.t;
  staffs : list Staff;
  loading : bool;
  myTasks : list MyTask;
  startDates : list Js.value;
  endDates : list Js.value;
  progress : list Js.value;
  assigned : list Js.value;
  work : list Js.value;
  cache : gmap string (list ColumnFilter.t);
  notifications : list Notification;
  ctx_loading : bool;
}.

(** ** Statements that change the state and may throw *)

Inductive completion (A : Type) :=
  | Normal (a : A)
  | Throw.
Arguments Normal {A} a.
Arguments Throw {A}.

Definition M (A : Type) : Type := State → completion A * State.

#[global] Instance M_ret : MRet M := λ A a st, (Normal a, st).

#[global] Instance M_bind : MBind M := λ A B f m st,
  match m st with
  | (Normal a, st') => f a st'
  | (Throw, st') => (Throw, st')
  end.

Definition throw {A} : M A := λ st, (Throw, st).

(** [try { body } catch (e) { handler }] *)
Definition try_catch {A} (body handler : M A) : M A := λ st,
  match body st with
  | (Normal a, st') => (Normal a, st')
  | (Throw, st') => handler st'
  end.

(** [await p] *)
Definition await {A} (p : Promise A) : M A :=
  match p with
  | Resolved a => mret a
  | Rejected => throw
  end.

(** A pure computation that may throw, run as a statement. *)
Definition lift {A} (o : option A) : M A :=
  match o with
  | Some a => mret a
  | None => throw
  end.

Definition gets {A} (f : State → A) : M A := λ st, (Normal (f st), st).
Definition modify (f : State → State) : M () := λ st, (Normal (), f st).

(** [arr.forEach(f)] *)
Fixpoint forEach {A} (f : A → M ()) (arr : list A) : M () :=
  match arr with
  | [] => mret ()
  | x :: rest => f x;; forEach f rest
  end.

(** The setters of the [useState] cells. *)
Definition setStaffs (v : list Staff) : M () := modify (λ st,
  {| columnFilters := columnFilters st; staffs := v; loading := loading st;
     myTasks := myTasks st; startDates := startDates st;
     endDates := endDates st; progress := progress st;
     assigned := assigned st; work := work st; cache := cache st;
     notifications := notifications st; ctx_loading := ctx_loading st |}).

Definition setLoading (v : bool) : M () := modify (λ st,
  {| columnFilters := columnFilters st; staffs := staffs st; loading := v;
     myTasks := myTasks st; startDates := startDates st;
     endDates := endDates st; progress := progress st;
     assigned := assigned st; work := work st; cache := cache st;
     notifications := notifications st; ctx_loading := ctx_loading st |}).

Definition setMyTasks (v : list MyTask) : M () := modify (λ st,
  {| columnFilters := columnFilters st; staffs := staffs st;
     loading := loading st; myTasks := v; startDates := startDates st;
     endDates := endDates st; progress := progress st;
     assigned := assigned st; work := work st; cache := cache st;
     notifications := notifications st; ctx_loading := ctx_loading st |}).

Definition setStartDates (v : list Js.value) : M () := modify (λ st,
  {| columnFilters := columnFilters st; staffs := staffs st;
     loading := loading st; myTasks := myTasks st; startDates := v;
     endDates := endDates st; progress := progress st;
     assigned := assigned st; work := work st; cache := cache st;
     notifications := notifications st; ctx_loading := ctx_loading st |}).

Definition setEndDates (v : list Js.value) : M () := modify (λ st,
  {| columnFilters := columnFilters st; staffs := staffs st;
     loading := loading st; myTasks := myTasks st;
     startDates := startDates st; endDates := v; progress := progress st;
     assigned := assigned st; work := work st; cache := cache st;
     notifications := notifications st; ctx_loading := ctx_loading st |}).

Definition setProgress (v : list Js.value) : M () := modify (λ st,
  {| columnFilters := columnFilters st; staffs := staffs st;
     loading := loading st; myTasks := myTasks st;
     startDates := startDates st; endDates := endDates st; progress := v;
     assigned := assigned st; work := work st; cache := cache st;
     notifications := notifications st; ctx_loading := ctx_loading st |}).

Definition setAssigned (v : list Js.value) : M () := modify (λ st,
  {| columnFilters := columnFilters st; staffs := staffs st;
     loading := loading st; myTasks := myTasks st;
     startDates := startDates st; endDates := endDates st;
     progress := progress st; assigned := v; work := work st;
     cache := cache st; notifications := notifications st;
     ctx_loading := ctx_loading st |}).

Definition setWork (v : list Js.value) : M () := modify (λ st,
  {| columnFilters := columnFilters st; staffs := staffs st;
     loading := loading st; myTasks := myTasks st;
     startDates := startDates st; endDates := endDates st;
     progress := progress st; assigned := assigned st; work := v;
     cache := cache st; notifications := notifications st;
     ctx_loading := ctx_loading st |}).

(** [showNotification(message, { type })] adds one toast. *)
Definition showNotification (msg ty : string) : M () := modify (λ st,
  {| columnFilters := columnFilters st; staffs := staffs st;
     loading := loading st; myTasks := myTasks st;
     startDates := startDates st; endDates := endDates st;
     progress := progress st; assigned := assigned st; work := work st;
     cache := cache st;
     notifications := notifications st ++ [{| message := msg; type := ty |}];
     ctx_loading := ctx_loading st |}).

(** ** The cached filter hook *)

Definition myTasksListColumnFiltersCacheKey : string :=
  "myTasks-listing-column-filters".

(** Modelled from the spec: the hook [useCachedState] of
    [hooks/useCachedFilters] is not part of this file.  The column filter
    state is "persisted externally (cache) and rehydrated on load, with
    a default", and the cache is "read at mount and written whenever the
    user changes filters": the cell starts from the value cached under
    the key, or from the default when there is none. *)
Definition useCachedState_initial (cached : gmap string (list ColumnFilter.t))
    (key : string) (initial : list ColumnFilter.t) : list ColumnFilter.t :=
  default initial (cached !! key).

(** Modelled from the spec: the setter returned by [useCachedState]
    stores the new value in the cell and under the key in the cache. *)
Definition useCachedState_set (key : string) (v : list ColumnFilter.t) : M () :=
  modify (λ st,
  {| columnFilters := v; staffs := staffs st; loading := loading st;
     myTasks := myTasks st; startDates := startDates st;
     endDates := endDates st; progress := progress st;
     assigned := assigned st; work := work st;
     cache := <[key := v]> (cache st);
     notifications := notifications st; ctx_loading := ctx_loading st |}).

Definition setColumnFilters : list ColumnFilter.t → M () :=
  useCachedState_set myTasksListColumnFiltersCacheKey.

(** Lines 51-60: the default handed to the hook. *)
Definition defaultColumnFilters (user : UserDetail) : list ColumnFilter.t :=
  [ {| ColumnFilter.id := "status";
       ColumnFilter.value := ["In Progress"; "Not Started"] |};
    {| ColumnFilter.id := "assigned";
       ColumnFilter.value := [lastName user +:+ ", " +:+ firstName user] |} ].

(** The state at mount (lines 49-72): the filter cell comes from the
    hook, [loading] starts [true], every list starts empty. *)
Definition mount (user : UserDetail)
    (cached : gmap string (list ColumnFilter.t)) (ctxLoading : bool) : State :=
  {| columnFilters :=
       useCachedState_initial cached myTasksListColumnFiltersCacheKey
         (defaultColumnFilters user);
     staffs := []; loading := true; myTasks := [];
     startDates := []; endDates := []; progress := [];
     assigned := []; work := [];
     cache := cached; notifications := []; ctx_loading := ctxLoading |}.

(** Lines 356-361; an absent argument is [None], and an array, empty or
    not, is truthy. *)
Definition handleCacheFilters (filters : option (list ColumnFilter.t)) : M () :=
  match filters with
  | None => mret ()
  | Some filters => setColumnFilters filters
  end.

(** Lines 386-389: the [state] handed to the table. *)
Record TableState := { isLoading : bool; showGlobalFilter : bool }.

Definition table_state (st : State) : TableState :=
  {| isLoading := ctx_loading st; showGlobalFilter := true |}.

(** ** The component *)

Section Component.

(** Constants and tables that the file imports: the blank filter option
    of [MasterTrackTable/utils], the generic error text and the status
    option table of [models/taskEvent]; and the store holding the
    objects of the task payload. *)
Variable BLANK_OPTION : string.
Variable COMMON_ERROR_MESSAGE : string.
Variable statusOptions : list StatusOption.t.
Variable σ : Js.store.

(** *** The two fetches run on mount *)

(** Lines 74-88.  [service] is how the call
    [taskEventService.getMyTasks(Number(user.staffId))] settles. *)
Definition getMyTasks (service : Promise (Response (list MyTask)))
    : M (list MyTask) :=
  let result : list MyTask := [] in
  try_catch
    (taskResult ← await service;
     if decide (status taskResult = 200)
     then setMyTasks (data taskResult)
     else mret ())
    (setLoading false);;
  mret result.

(** Lines 340-351.  [service] is how [staffService.getAll()] settles. *)
Definition getStaffs (service : Promise (Response (list Staff))) : M () :=
  try_catch
    (staffsResult ← await service;
     if decide (status staffsResult = 200)
     then setStaffs (data staffsResult)
     else mret ())
    (showNotification COMMON_ERROR_MESSAGE "error").

(** *** Assignee filter options (lines 123-134) *)

(** [`${a.assignee.first_name} ${a.assignee.last_name}`] *)
Definition full_name (a : TaskAssignee) : string :=
  first_name (assignee a) +:+ " " +:+ last_name (assignee a).

(** [task.assignees || [""]]: an absent list is replaced by the
    one-element array holding the empty string ([None] below); an array,
    empty or not, is truthy and is kept. *)
Definition assignees_or_blank (task : MyTask) : list (option TaskAssignee) :=
  match assignees task with
  | Some l => Some <$> l
  | None => [None]
  end.

(** [assignee ? `...` : BLANK_OPTION]: the empty string is falsy, an
    assignee record is truthy. *)
Definition option_label (a : option TaskAssignee) : string :=
  match a with
  | Some a => full_name a
  | None => BLANK_OPTION
  end.

Definition assigneeOptions (tasks : list MyTask) : list string :=
  JsSet.Array_from
    (JsSet.new (option_label <$> mjoin (assignees_or_blank <$> tasks))).

(** *** The facet effect (lines 136-159) *)

(** Keys are listed in the order of the object literal, which is the
    order [Object.keys] yields. *)
Definition codeTypes : list (string * (list Js.value → M ())) :=
  [ ("start_date", setStartDates);
    ("end_date", setEndDates);
    ("progress", setProgress);
    ("assigned", setAssigned);
    ("work", setWork) ].

Definition Object_keys {V} (o : list (string * V)) : list string := o.*1.

(** [codeTypes[key](codes)]; calling a missing entry throws. *)
Definition call_setter (key : string) (codes : list Js.value) : M () :=
  match list_find (λ e, e.1 = key) codeTypes with
  | Some (_, (_, setter)) => setter codes
  | None => throw
  end.

(** [(w) => (w[key] ? w[key][accessor] : null)] *)
Definition pick (key accessor : string) (w : MyTask) : option Js.value :=
  if Js.truthy (index w key) then Js.get σ (index w key) accessor
  else Some Js.VNull.

(** [(ele, index, arr) => arr.findIndex((t) => t === ele) === index && ele] *)
Definition first_and_truthy (ele : Js.value) (i : Z) (arr : list Js.value)
    : bool :=
  bool_decide (Js.findIndex (λ t, Js.strict_eq t ele) arr = i)
  && Js.truthy ele.

Definition codes_of (key : string) (tasks : list MyTask)
    : option (list Js.value) :=
  let accessor := if decide (key = "work") then "title" else key in
  Js.filter first_and_truthy <$> mapM (pick key accessor) tasks.

(** The body of the effect; it runs after a render in which [myTasks]
    changed, with the [myTasks] of that render. *)
Definition facet_effect : M () :=
  tasks ← gets myTasks;
  forEach (λ key, codes ← lift (codes_of key tasks); call_setter key codes)
          (Object_keys codeTypes).

(** *** The assigned column (lines 258-303) *)

(** [row.assignees?.map(...).join(", ")]; [None] is [undefined]. *)
Definition accessorFn (row : MyTask) : option string :=
  (λ l, JsString.join ", " (full_name <$> l)) <$> assignees row.

(** [row.renderValue(id)] of the table library: the accessor value of
    the column, or a nullish fallback when that is undefined. *)
Definition renderValue (row : MyTask) : option string := accessorFn row.

(** [row.renderValue(id) || BLANK_OPTION] *)
Definition renderedValue (row : MyTask) : string :=
  match renderValue row with
  | Some s => if JsString.truthy s then s else BLANK_OPTION
  | None => BLANK_OPTION
  end.

(** Lines 277-289, with the [assigneeOptions] of the current render. *)
Definition filterFn (tasks : list MyTask)
    (row : MyTask) (filterValue : list string) : bool :=
  if bool_decide (length filterValue = 0%nat)
     || bool_decide (length (assigneeOptions tasks) < length filterValue)%nat
  then true
  else
    forallb (λ filterName, JsString.includes (renderedValue row) filterName)
            filterValue.

(** [column.getFilterValue()] of the table library: the value of the
    filter entry with the id of the column. *)
Definition getFilterValue (columnId : string) (filters : list ColumnFilter.t)
    : option (list string) :=
  ColumnFilter.value <$> (snd <$> list_find (λ f, ColumnFilter.id f = columnId) filters).

(** A row is kept by the assigned column under a filter state when the
    column has no filter entry or its [filterFn] accepts the row. *)
Definition assigned_column_keeps (tasks : list MyTask)
    (filters : list ColumnFilter.t) (row : MyTask) : bool :=
  match getFilterValue "assigned" filters with
  | Some v => filterFn tasks row v
  | None => true
  end.

(** *** The status cell (lines 226-256) *)

(** The three icons of [components/icons/status]; their [fill] colour
    plays no part below and is left out. *)
Inductive Icon := NotStartedIcon | InProgressIcon | CompletedIcon.

(** [<Case condition={c}>child</Case>] of react-if. *)
Record Case := { condition : bool; children : Icon }.

(** [<Switch>] renders the first [Case] whose condition holds, and
    nothing when there is none. *)
Definition Switch (cases : list Case) : option Icon :=
  children <$> head (filter (λ c, condition c = true) cases).

(** What the cell shows: the icon inside the [Switch] and the text of
    the paragraph ([None] where the expression is [undefined]). *)
Record StatusCell := { icon : option Icon; paragraph : option string }.

Definition Cell (value : EVENT_STATUS) : StatusCell :=
  {| icon :=
       Switch
         [ {| condition := bool_decide (value = NOT_STARTED);
              children := NotStartedIcon |};
           {| condition := bool_decide (value = INPROGRESS);
              children := InProgressIcon |};
           {| condition := bool_decide (value = COMPLETED);
              children := CompletedIcon |} ];
     paragraph :=
       StatusOption.label <$>
         head (filter (λ statusOption, StatusOption.value statusOption = value)
                      statusOptions) |}.

(** *** The label of a status filter option (lines 105-107)

    The callback handed to [getSelectFilterOptions] for the status
    column:
    [statusOptions.find((o) => o.value == value)?.label ?? BLANK_OPTION]. *)
Definition statusFilterLabel (value : EVENT_STATUS) : string :=
  default BLANK_OPTION
    (StatusOption.label <$>
       Js.find (λ statusOption,
                  bool_decide (StatusOption.value statusOption = value))
               statusOptions).

End Component.

(** ** The facet lists as the specification words them

    "mapping each task through a per-field accessor and removing values
    already seen earlier in iteration order (first-occurrence dedup),
    then discarding falsy results". *)

(** The value a task contributes to the facet of [key]. *)
Definition field_value (σ : Js.store) (key accessor : string) (w : MyTask)
    : Js.value :=
  if Js.truthy (index w key) then Js.read σ (index w key) accessor
  else Js.VNull.

(** Drops every value that occurred earlier in the list. *)
Fixpoint first_occurrences (seen l : list Js.value) : list Js.value :=
  match l with
  | [] => []
  | x :: rest =>
      (if decide (x ∈ seen) then [] else [x])
      ++ first_occurrences (x :: seen) rest
  end.

Definition distinct_truthy (l : list Js.value) : list Js.value :=
  filter (λ v, Js.truthy v = true) (first_occurrences [] l).

(** A facet list [f] holds the distinct truthy values of [vs] in the
    order of their first appearance. *)
Definition facet_of (f vs : list Js.value) : Prop :=
  f = distinct_truthy vs
  ∧ NoDup f
  ∧ (∀ v, v ∈ f ↔ v ∈ vs ∧ Js.truthy v = true)
  ∧ f `sublist_of` vs.

(** ** Sample data used by the examples below *)

Module Sample.

Definition blank : string := "(Blanks)".

Definition john : TaskAssignee :=
  {| assignee := {| first_name := "John"; last_name := "Doe" |} |}.
Definition jane : TaskAssignee :=
  {| assignee := {| first_name := "Jane"; last_name := "Roe" |} |}.

Definition user_john : UserDetail :=
  {| firstName := "John"; lastName := "Doe" |}.

(** Two works in the store. *)
Definition objects : Js.store :=
  {[ 1%positive := {[ "title" := Js.VStr "Work A" ]};
     2%positive := {[ "title" := Js.VStr "Work B" ]} ]}.

Definition task_john : MyTask :=
  {| assignees := Some [john];
     props := {[ "start_date" := Js.VStr "2024-01-05";
                 "work" := Js.VObj 1%positive ]} |}.

Definition task_jane : MyTask :=
  {| assignees := Some [jane];
     props := {[ "start_date" := Js.VStr "2024-02-01";
                 "work" := Js.VObj 2%positive ]} |}.

(** A task whose assignee list is the empty array. *)
Definition task_nobody : MyTask :=
  {| assignees := Some [];
     props := {[ "start_date" := Js.VStr "2024-03-01";
                 "work" := Js.VObj 1%positive ]} |}.

(** A task with two assignees. *)
Definition task_pair : MyTask :=
  {| assignees := Some [john; jane];
     props := {[ "start_date" := Js.VStr "2024-01-05";
                 "work" := Js.VObj 2%positive ]} |}.

(** A task whose [assignees] field is absent. *)
Definition task_absent : MyTask :=
  {| assignees := None; props := {[ "work" := Js.VObj 2%positive ]} |}.

Definition statusOptions : list StatusOption.t :=
  [ {| StatusOption.label := "Not Started"; StatusOption.value := NOT_STARTED |};
    {| StatusOption.label := "In Progress"; StatusOption.value := INPROGRESS |};
    {| StatusOption.label := "Completed"; StatusOption.value := COMPLETED |} ].

Definition ok_tasks : Response (list MyTask) :=
  {| status := 200; data := [task_john; task_jane] |}.
Definition not_found_tasks : Response (list MyTask) :=
  {| status := 404; data := [task_john] |}.

Definition ok_staffs : Response (list Staff) :=
  {| status := 200; data := [ {[ "id" := Js.VNum 7 ]} ] |}.
Definition unavailable_staffs : Response (list Staff) :=
  {| status := 503; data := [] |}.

End Sample.

(** * Properties *)

(** ** Strings *)

Section StringFacts.

Implicit Types s sub pre post : string.

Lemma length_append s1 s2 :
  String.length (s1 +:+ s2) = (String.length s1 + String.length s2)%nat.
Proof. induction s1 as [|c s1 IH]; simpl; [done|]. by rewrite IH. Qed.

Lemma startsWith_spec s sub :
  JsString.startsWith s sub = true ↔ ∃ post, s = sub +:+ post.
Proof.
  revert s. induction sub as [|c sub IH]; intros s; simpl.
  - split; [intros _; by exists s | done].
  - destruct s as [|d s].
    + split; [done | intros [post Hpost]; discriminate].
    + destruct (decide (c = d)) as [->|Hne].
      * rewrite IH. split; intros [post Hpost]; exists post.
        -- by rewrite Hpost.
        -- by injection Hpost.
      * split; [done|]. intros [post Hpost]. injection Hpost as Hd _.
        by destruct Hne.
Qed.

(** [includes] finds exactly the substrings. *)
Lemma includes_spec s sub :
  JsString.includes s sub = true ↔ ∃ pre post, s = pre +:+ sub +:+ post.
Proof.
  induction s as [|d s IH]; simpl.
  - rewrite orb_false_r, startsWith_spec. split.
    + intros [post Hpost]. by exists "", post.
    + intros ([|c pre] & post & Hpost); [by exists post | discriminate].
  - rewrite orb_true_iff, startsWith_spec, IH. split.
    + intros [[post Hpost] | (pre & post & Hpost)].
      * by exists "", post.
      * exists (String d pre), post. simpl. by rewrite Hpost.
    + intros ([|c pre] & post & Hpost).
      * left. by exists post.
      * right. injection Hpost as _ Hs. by exists pre, post.
Qed.

Lemma includes_length s sub :
  JsString.includes s sub = true → (String.length sub ≤ String.length s)%nat.
Proof.
  rewrite includes_spec. intros (pre & post & ->).
  rewrite !length_append. lia.
Qed.

Lemma append_cons c s1 s2 : String c s1 +:+ s2 = String c (s1 +:+ s2).
Proof. reflexivity. Qed.

Lemma append_empty_r s : s +:+ "" = s.
Proof. induction s as [|c s IH]; [done|]. by rewrite append_cons, IH. Qed.

Lemma includes_refl s : JsString.includes s s = true.
Proof.
  apply includes_spec. exists "", "". simpl. by rewrite append_empty_r.
Qed.

Lemma truthy_append_space s1 s2 : JsString.truthy (s1 +:+ " " +:+ s2) = true.
Proof. by destruct s1. Qed.

End StringFacts.

(** ** Sets *)

Section SetFacts.

Lemma JsSet_add_elem (s : list string) x y :
  y ∈ JsSet.add s x ↔ y ∈ s ∨ y = x.
Proof.
  unfold JsSet.add. case_decide as Hx.
  - split; [by left | intros [? | ->]; done].
  - by rewrite elem_of_app, list_elem_of_singleton.
Qed.

Lemma JsSet_add_NoDup (s : list string) x : NoDup s → NoDup (JsSet.add s x).
Proof.
  intros Hs. unfold JsSet.add. case_decide; [done|].
  apply NoDup_app. split_and!; [done | | apply NoDup_singleton].
  intros y Hy ->%list_elem_of_singleton. done.
Qed.

Lemma JsSet_foldl_elem xs (s : list string) y :
  y ∈ foldl JsSet.add s xs ↔ y ∈ s ∨ y ∈ xs.
Proof.
  revert s. induction xs as [|x xs IH]; intros s; simpl.
  - rewrite elem_of_nil. tauto.
  - rewrite IH, JsSet_add_elem, elem_of_cons. tauto.
Qed.

Lemma JsSet_foldl_NoDup xs (s : list string) :
  NoDup s → NoDup (foldl JsSet.add s xs).
Proof.
  revert s. induction xs as [|x xs IH]; intros s Hs; simpl; [done|].
  by apply IH, JsSet_add_NoDup.
Qed.

(** A set built from a list has the members of the list, each once. *)
Lemma JsSet_new_elem xs y : y ∈ JsSet.new xs ↔ y ∈ xs.
Proof. unfold JsSet.new. rewrite JsSet_foldl_elem, elem_of_nil. tauto. Qed.

Lemma JsSet_new_NoDup xs : NoDup (JsSet.new xs).
Proof. apply JsSet_foldl_NoDup, NoDup_nil_2. Qed.

End SetFacts.

(** ** The assignee filter options and the assigned column *)

Section AssigneeFacts.

Variable BLANK_OPTION : string.

Implicit Types (tasks : list MyTask) (row task : MyTask) (name : string).

Lemma assignees_or_blank_elem task (x : option TaskAssignee) :
  x ∈ assignees_or_blank task ↔
    (∃ l a, assignees task = Some l ∧ a ∈ l ∧ x = Some a)
    ∨ (assignees task = None ∧ x = None).
Proof.
  unfold assignees_or_blank. destruct (assignees task) as [l|].
  - rewrite list_elem_of_fmap. split.
    + intros (a & -> & Ha). left. by exists l, a.
    + intros [(l' & a & [= <-] & Ha & ->) | [? _]]; [by exists a | done].
  - rewrite list_elem_of_singleton. split.
    + intros ->. by right.
    + intros [(l & a & ? & _) | [_ ->]]; done.
Qed.

(** The options are the full names of the assignees of the tasks,
    together with the blank option when the [assignees] field of some
    task is absent. *)
Lemma assigneeOptions_elem tasks name :
  name ∈ assigneeOptions BLANK_OPTION tasks ↔
    (∃ task l a, task ∈ tasks ∧ assignees task = Some l ∧ a ∈ l
                 ∧ name = full_name a)
    ∨ (name = BLANK_OPTION ∧ ∃ task, task ∈ tasks ∧ assignees task = None).
Proof.
  unfold assigneeOptions, JsSet.Array_from.
  rewrite JsSet_new_elem, list_elem_of_fmap. split.
  - intros (x & -> & Hx). apply list_elem_of_join in Hx as (xs & Hx & Hxs).
    apply list_elem_of_fmap in Hxs as (task & -> & Htask).
    apply assignees_or_blank_elem in Hx as [(l & a & Hl & Ha & ->) | [Hl ->]].
    + left. by exists task, l, a.
    + right. split; [done|]. by exists task.
  - intros [(task & l & a & Htask & Hl & Ha & ->) | (-> & task & Htask & Hl)].
    + exists (Some a). split; [done|]. apply list_elem_of_join.
      exists (assignees_or_blank task). split.
      * apply assignees_or_blank_elem. left. by exists l, a.
      * by apply list_elem_of_fmap_2.
    + exists None. split; [done|]. apply list_elem_of_join.
      exists (assignees_or_blank task). split.
      * apply assignees_or_blank_elem. by right.
      * by apply list_elem_of_fmap_2.
Qed.

(** No option is listed twice. *)
Lemma assigneeOptions_NoDup tasks : NoDup (assigneeOptions BLANK_OPTION tasks).
Proof. apply JsSet_new_NoDup. Qed.

Lemma assigneeOptions_full_name tasks task l a :
  task ∈ tasks → assignees task = Some l → a ∈ l →
  full_name a ∈ assigneeOptions BLANK_OPTION tasks.
Proof.
  intros. apply assigneeOptions_elem. left. by exists task, l, a.
Qed.

(** The blank option is listed when the [assignees] field of a task is
    absent. *)
Lemma assigneeOptions_blank_when_absent tasks task :
  task ∈ tasks → assignees task = None →
  BLANK_OPTION ∈ assigneeOptions BLANK_OPTION tasks.
Proof.
  intros. apply assigneeOptions_elem. right. split; [done|]. by exists task.
Qed.

(** A row with an absent or empty assignee list is rendered as the
    blank option by the filter. *)
Lemma renderedValue_no_assignees row :
  assignees row = None ∨ assignees row = Some [] →
  renderedValue BLANK_OPTION row = BLANK_OPTION.
Proof.
  unfold renderedValue, renderValue, accessorFn. by intros [-> | ->].
Qed.

Lemma renderedValue_one_assignee row a :
  assignees row = Some [a] → renderedValue BLANK_OPTION row = full_name a.
Proof.
  unfold renderedValue, renderValue, accessorFn. intros ->. simpl.
  unfold full_name. by rewrite truthy_append_space.
Qed.

Lemma filterFn_unfold tasks row sel :
  (0 < length sel ≤ length (assigneeOptions BLANK_OPTION tasks))%nat →
  filterFn BLANK_OPTION tasks row sel
  = forallb (λ name, JsString.includes (renderedValue BLANK_OPTION row) name) sel.
Proof.
  intros [Hpos Hle]. unfold filterFn.
  rewrite bool_decide_eq_false_2, bool_decide_eq_false_2 by lia. done.
Qed.

(** C1 (as amended): an empty selection, and a selection with more
    entries than there are derived assignee options (what the table
    filter hands over when "select all" is ticked), pass every row. *)
Theorem filterFn_no_filtering tasks row (sel : list string) :
  sel = [] ∨ (length (assigneeOptions BLANK_OPTION tasks) < length sel)%nat →
  filterFn BLANK_OPTION tasks row sel = true.
Proof.
  intros [-> | Hlt]; unfold filterFn.
  - done.
  - rewrite (bool_decide_eq_true_2 (_ < _)%nat) by done.
    by rewrite orb_true_r.
Qed.

(** C7 (as amended): for a selection that is not empty and has no more
    entries than there are derived assignee options, a row passes
    exactly when its rendered assignee string (the blank option when
    that string is falsy) contains every selected name as a substring.
    With one selected name and at least one option, the rows that pass
    are those whose rendered string contains the name. *)
Theorem filterFn_every_selected_name tasks row (sel : list string) :
  (0 < length sel ≤ length (assigneeOptions BLANK_OPTION tasks))%nat →
  filterFn BLANK_OPTION tasks row sel = true ↔
    ∀ name, name ∈ sel →
      ∃ pre post, renderedValue BLANK_OPTION row = pre +:+ name +:+ post.
Proof.
  intros Hlen. rewrite filterFn_unfold by done.
  rewrite forallb_forall. split.
  - intros H name Hname. apply includes_spec, H. by apply list_elem_of_In.
  - intros H name Hname. apply includes_spec, H. by apply list_elem_of_In.
Qed.

(** The default filter names the user as "last, first", a rendered row
    names its assignee as "first last": a task assigned to the user
    alone is never kept by the default filter. *)
Lemma default_filter_drops_own_task (user : UserDetail) tasks row :
  row ∈ tasks →
  assignees row =
    Some [ {| assignee := {| first_name := firstName user;
                             last_name := lastName user |} |} ] →
  assigned_column_keeps BLANK_OPTION tasks (defaultColumnFilters user) row
  = false.
Proof.
  intros Hrow Hassignee. unfold assigned_column_keeps.
  change (getFilterValue "assigned" (defaultColumnFilters user))
    with (Some [lastName user +:+ ", " +:+ firstName user]).
  cbv beta iota.
  assert (1 ≤ length (assigneeOptions BLANK_OPTION tasks))%nat as Hopts.
  { pose proof (assigneeOptions_full_name tasks row _ _ Hrow Hassignee
                  (list_elem_of_here _ _)) as Hin.
    destruct (assigneeOptions BLANK_OPTION tasks); [|simpl; lia].
    by apply elem_of_nil in Hin. }
  rewrite filterFn_unfold by (simpl; lia). simpl.
  rewrite andb_true_r. apply not_true_is_false. intros Hinc.
  apply includes_length in Hinc.
  rewrite (renderedValue_one_assignee _ _ Hassignee) in Hinc.
  unfold full_name in Hinc. simpl in Hinc.
  rewrite !length_append in Hinc. simpl in Hinc. lia.
Qed.

End AssigneeFacts.

(** ** The facet effect *)

Section FacetFacts.

Variable σ : Js.store.

Implicit Types (v x : Js.value) (l pre rest seen : list Js.value).

(** The guard [w[key] ? ... : null] keeps the read from throwing. *)
Lemma pick_total key accessor (w : MyTask) :
  pick σ key accessor w = Some (field_value σ key accessor w).
Proof.
  unfold pick, field_value.
  destruct (index w key) as [| |b| |n|s|l]; simpl; try done.
  - by destruct b.
  - by destruct (negb _).
  - by destruct (JsString.truthy s).
Qed.

Lemma mapM_pick key accessor (tasks : list MyTask) :
  mapM (pick σ key accessor) tasks
  = Some (field_value σ key accessor <$> tasks).
Proof.
  induction tasks as [|w tasks IH]; [done|].
  simpl. rewrite pick_total. simpl. by rewrite IH.
Qed.

Lemma findIndex_from_range (p : Js.value → bool) i l :
  Js.findIndex_from p i l = -1
  ∨ i ≤ Js.findIndex_from p i l < i + Z.of_nat (length l).
Proof.
  revert i. induction l as [|x l IH]; intros i; simpl; [by left|].
  destruct (p x); [right; lia|].
  destruct (IH (i + 1)) as [-> | ?]; [by left | right; lia].
Qed.

Lemma strict_eq_true x v : Js.strict_eq x v = true ↔ x = v ∧ v ≠ Js.VNaN.
Proof.
  destruct x, v; simpl; rewrite ?bool_decide_eq_true;
    (split; [intros H; try discriminate H; split; congruence
            | intros [H1 H2]; congruence]).
Qed.

(** Searching for a value that is not [NaN] stops at its first
    occurrence. *)
Lemma findIndex_from_first x i pre rest :
  x ≠ Js.VNaN → x ∉ pre →
  Js.findIndex_from (λ t, Js.strict_eq t x) i (pre ++ x :: rest)
  = i + Z.of_nat (length pre).
Proof.
  intros Hnan. revert i. induction pre as [|y pre IH]; intros i Hpre; simpl.
  - rewrite (proj2 (strict_eq_true x x)) by done. lia.
  - apply not_elem_of_cons in Hpre as [Hxy Hpre].
    destruct (Js.strict_eq y x) eqn:Heq.
    + apply strict_eq_true in Heq as [-> _]. done.
    + rewrite IH by done. lia.
Qed.

Lemma findIndex_from_earlier x i pre rest :
  0 ≤ i → x ≠ Js.VNaN → x ∈ pre →
  Js.findIndex_from (λ t, Js.strict_eq t x) i (pre ++ rest)
  ≠ i + Z.of_nat (length pre).
Proof.
  intros Hi Hnan Hin. apply list_elem_of_split in Hin as (l1 & l2 & ->).
  revert i Hi. induction l1 as [|y l1 IH]; intros i Hi; simpl.
  - rewrite (proj2 (strict_eq_true x x)) by done. lia.
  - destruct (Js.strict_eq y x); [lia|].
    specialize (IH (i + 1)). lia.
Qed.

Lemma findIndex_from_NaN i l :
  Js.findIndex_from (λ t, Js.strict_eq t Js.VNaN) i l = -1.
Proof.
  revert i. induction l as [|y l IH]; intros i; simpl; [done|].
  destruct y; simpl; apply IH.
Qed.

(** The callback of the filter keeps an element exactly when it is
    truthy and did not occur before its own position. *)
Lemma first_and_truthy_spec x pre rest :
  first_and_truthy x (Z.of_nat (length pre)) (pre ++ x :: rest)
  = bool_decide (x ∉ pre) && Js.truthy x.
Proof.
  unfold first_and_truthy, Js.findIndex.
  destruct (decide (x = Js.VNaN)) as [-> | Hnan].
  { simpl. by rewrite !andb_false_r. }
  f_equal. destruct (decide (x ∈ pre)) as [Hin | Hnin].
  - rewrite (bool_decide_eq_false_2 (x ∉ pre)) by auto.
    apply bool_decide_eq_false_2.
    by apply (findIndex_from_earlier x 0 pre (x :: rest)).
  - rewrite (bool_decide_eq_true_2 (x ∉ pre)) by done.
    apply bool_decide_eq_true_2.
    by rewrite findIndex_from_first.
Qed.

Lemma filter_from_first_occurrences pre rest seen :
  (∀ y, y ∈ seen ↔ y ∈ pre) →
  Js.filter_from first_and_truthy (pre ++ rest) (Z.of_nat (length pre)) rest
  = filter (λ v, Js.truthy v = true) (first_occurrences seen rest).
Proof.
  revert pre seen. induction rest as [|x rest IH]; intros pre seen Hseen.
  { done. }
  simpl. rewrite first_and_truthy_spec, filter_app.
  assert (Js.filter_from first_and_truthy (pre ++ x :: rest)
            (Z.of_nat (length pre) + 1) rest
          = filter (λ v, Js.truthy v = true) (first_occurrences (x :: seen) rest))
    as ->.
  { rewrite <-(IH (pre ++ [x]) (x :: seen)).
    - rewrite <-app_assoc, length_app. simpl. do 2 f_equal. lia.
    - intros y. rewrite elem_of_cons, elem_of_app, list_elem_of_singleton.
      rewrite Hseen. tauto. }
  destruct (decide (x ∈ seen)) as [Hin | Hnin].
  - rewrite (bool_decide_eq_false_2 (x ∉ pre)); [done|].
    intros Hpre. by apply Hpre, Hseen.
  - rewrite (bool_decide_eq_true_2 (x ∉ pre)) by (by rewrite <-Hseen).
    simpl. rewrite filter_cons, filter_nil.
    destruct (Js.truthy x) eqn:Hx; by case_decide.
Qed.

(** The array filter of the effect computes the list the
    specification describes. *)
Lemma filter_first_and_truthy l :
  Js.filter first_and_truthy l = distinct_truthy l.
Proof.
  unfold Js.filter, distinct_truthy.
  by rewrite <-(filter_from_first_occurrences [] l []).
Qed.

Lemma first_occurrences_elem seen l v :
  v ∈ first_occurrences seen l ↔ v ∈ l ∧ v ∉ seen.
Proof.
  revert seen. induction l as [|x l IH]; intros seen; simpl.
  - rewrite elem_of_nil. tauto.
  - rewrite elem_of_app, IH, !elem_of_cons.
    destruct (decide (x ∈ seen)) as [Hin | Hnin].
    + rewrite elem_of_nil. destruct (decide (v = x)) as [-> | ?]; tauto.
    + rewrite list_elem_of_singleton.
      destruct (decide (v = x)) as [-> | ?]; tauto.
Qed.

Lemma first_occurrences_NoDup seen l : NoDup (first_occurrences seen l).
Proof.
  revert seen. induction l as [|x l IH]; intros seen; simpl.
  - apply NoDup_nil_2.
  - apply NoDup_app. split_and!; [| |apply IH].
    + case_decide; [apply NoDup_nil_2 | apply NoDup_singleton].
    + intros y Hy. rewrite first_occurrences_elem, elem_of_cons.
      case_decide; [by apply elem_of_nil in Hy|].
      apply list_elem_of_singleton in Hy as ->. tauto.
Qed.

Lemma first_occurrences_sublist seen l : first_occurrences seen l `sublist_of` l.
Proof.
  revert seen. induction l as [|x l IH]; intros seen; simpl; [done|].
  case_decide; simpl.
  - by apply sublist_cons.
  - by apply sublist_skip.
Qed.

Lemma distinct_truthy_facet l : facet_of (distinct_truthy l) l.
Proof.
  unfold facet_of, distinct_truthy. split_and!.
  - done.
  - apply NoDup_filter, first_occurrences_NoDup.
  - intros v. rewrite list_elem_of_filter, first_occurrences_elem, elem_of_nil.
    tauto.
  - etrans; [apply sublist_filter | apply first_occurrences_sublist].
Qed.

(** The codes of a key never throw, and are the facet of the values the
    tasks contribute. *)
Lemma codes_of_spec key (tasks : list MyTask) :
  codes_of σ key tasks
  = Some (distinct_truthy
            (field_value σ key (if decide (key = "work") then "title" else key)
               <$> tasks)).
Proof.
  unfold codes_of. rewrite mapM_pick. simpl. by rewrite filter_first_and_truthy.
Qed.

(** A field that holds no object (a date string, a number, a missing
    field) contributes no truthy value, so its facet is empty. *)
Lemma distinct_truthy_primitive_field key accessor (tasks : list MyTask) :
  (∀ w o, w ∈ tasks → index w key ≠ Js.VObj o) →
  distinct_truthy (field_value σ key accessor <$> tasks) = [].
Proof.
  intros Hprim. apply elem_of_nil_inv. intros v Hv.
  apply (distinct_truthy_facet _) in Hv as [Hv Htruthy].
  apply list_elem_of_fmap in Hv as (w & -> & Hw).
  unfold field_value in Htruthy. specialize (Hprim w).
  destruct (index w key) as [| |b| |n|s|o]; simpl in Htruthy;
    try discriminate Htruthy.
  - by destruct b.
  - by destruct (negb _).
  - by destruct (JsString.truthy s).
  - by apply (Hprim o).
Qed.

End FacetFacts.

Section FacetEffect.

Variable σ : Js.store.

Lemma call_setter_known :
  call_setter "start_date" = setStartDates
  ∧ call_setter "end_date" = setEndDates
  ∧ call_setter "progress" = setProgress
  ∧ call_setter "assigned" = setAssigned
  ∧ call_setter "work" = setWork.
Proof. by split_and!. Qed.

(** The run of the effect: it completes normally and stores, for each
    key, the codes computed from the tasks. *)
Lemma facet_effect_result (st : State) :
  ∃ st',
    facet_effect σ st = (Normal (), st')
    ∧ myTasks st' = myTasks st
    ∧ startDates st'
      = distinct_truthy (field_value σ "start_date" "start_date" <$> myTasks st)
    ∧ endDates st'
      = distinct_truthy (field_value σ "end_date" "end_date" <$> myTasks st)
    ∧ progress st'
      = distinct_truthy (field_value σ "progress" "progress" <$> myTasks st)
    ∧ assigned st'
      = distinct_truthy (field_value σ "assigned" "assigned" <$> myTasks st)
    ∧ work st'
      = distinct_truthy (field_value σ "work" "title" <$> myTasks st).
Proof.
  destruct call_setter_known as (Hs & He & Hp & Ha & Hw).
  eexists. split.
  - unfold facet_effect, Object_keys, codeTypes.
    unfold mbind, M_bind, gets. simpl.
    rewrite !codes_of_spec, Hs, He, Hp, Ha, Hw. simpl. reflexivity.
  - simpl. by split_and!.
Qed.

(** C2: the effect that runs when the task list has changed never
    throws, leaves the task list alone and sets each of the five facet
    lists (start date, end date, progress, assigned, work title) to the
    values its accessor yields on the tasks, first occurrences only and
    falsy values dropped: each list holds exactly the distinct truthy
    accessor values, in the order of their first appearance. *)
Theorem facet_effect_rederives (st : State) :
  ∃ st',
    facet_effect σ st = (Normal (), st')
    ∧ myTasks st' = myTasks st
    ∧ facet_of (startDates st')
        (field_value σ "start_date" "start_date" <$> myTasks st)
    ∧ facet_of (endDates st')
        (field_value σ "end_date" "end_date" <$> myTasks st)
    ∧ facet_of (progress st')
        (field_value σ "progress" "progress" <$> myTasks st)
    ∧ facet_of (assigned st')
        (field_value σ "assigned" "assigned" <$> myTasks st)
    ∧ facet_of (work st') (field_value σ "work" "title" <$> myTasks st).
Proof.
  destruct (facet_effect_result st)
    as (st' & Hrun & Htasks & Hs & He & Hp & Ha & Hw).
  exists st'. rewrite Hs, He, Hp, Ha, Hw.
  split_and!; [done | done | apply distinct_truthy_facet ..].
Qed.

End FacetEffect.

(** ** The fetches *)

Section FetchFacts.

Variable COMMON_ERROR_MESSAGE : string.

Implicit Types (st : State).

Lemma getMyTasks_resolved (r : Response (list MyTask)) st :
  (getMyTasks (Resolved r) st).2
  = if decide (status r = 200) then (setMyTasks (data r) st).2 else st.
Proof.
  unfold getMyTasks, try_catch, mbind, M_bind, await. simpl.
  by destruct (decide (status r = 200)).
Qed.

Lemma getMyTasks_rejected st :
  getMyTasks Rejected st = (Normal [], (setLoading false st).2).
Proof. reflexivity. Qed.

Lemma getStaffs_resolved (r : Response (list Staff)) st :
  getStaffs COMMON_ERROR_MESSAGE (Resolved r) st
  = (Normal (), if decide (status r = 200) then (setStaffs (data r) st).2
                else st).
Proof.
  unfold getStaffs, try_catch, mbind, M_bind, await. simpl.
  by destruct (decide (status r = 200)).
Qed.

Lemma getStaffs_rejected st :
  getStaffs COMMON_ERROR_MESSAGE Rejected st
  = (Normal (), (showNotification COMMON_ERROR_MESSAGE "error" st).2).
Proof. reflexivity. Qed.

(** C4: when the staff fetch throws, exactly one toast, carrying the
    generic error message, is added and the staff list is unchanged, so
    it is still empty when the fetch ran on the freshly mounted
    component; when the fetch returns a status other than 200 nothing
    changes at all: no toast, same staff list. *)
Theorem getStaffs_failure st :
  (let st' := (getStaffs COMMON_ERROR_MESSAGE Rejected st).2 in
   notifications st'
   = notifications st ++ [ {| message := COMMON_ERROR_MESSAGE; type := "error" |} ]
   ∧ staffs st' = staffs st)
  ∧ (∀ user cached ctxLoading,
       let st' := (getStaffs COMMON_ERROR_MESSAGE Rejected
                     (mount user cached ctxLoading)).2 in
       notifications st' = [ {| message := COMMON_ERROR_MESSAGE; type := "error" |} ]
       ∧ staffs st' = [])
  ∧ (∀ r : Response (list Staff),
       status r ≠ 200 →
       getStaffs COMMON_ERROR_MESSAGE (Resolved r) st = (Normal (), st)).
Proof.
  split_and!; [done | done |].
  intros r Hr. rewrite getStaffs_resolved. by rewrite decide_False.
Qed.

(** C6: the task list (resp. the staff list) becomes the data of the
    response, whatever it was before, exactly when the status of the
    response is 200; with any other status the state is unchanged. *)
Theorem fetch_replaces_state_iff_200
    (rt : Response (list MyTask)) (rs : Response (list Staff)) :
  ((∀ st, myTasks (getMyTasks (Resolved rt) st).2 = data rt)
     ↔ status rt = 200)
  ∧ (status rt ≠ 200 → ∀ st, (getMyTasks (Resolved rt) st).2 = st)
  ∧ ((∀ st, staffs (getStaffs COMMON_ERROR_MESSAGE (Resolved rs) st).2 = data rs)
       ↔ status rs = 200)
  ∧ (status rs ≠ 200 →
       ∀ st, (getStaffs COMMON_ERROR_MESSAGE (Resolved rs) st).2 = st).
Proof.
  split_and!.
  - split.
    + intros H. destruct (decide (status rt = 200)) as [|Hne]; [done|].
      set (w := {| assignees := None; props := ∅ |}).
      specialize (H (setMyTasks (w :: data rt)
                       (mount {| firstName := ""; lastName := "" |} ∅ true)).2).
      rewrite getMyTasks_resolved, decide_False in H by done.
      simpl in H. apply (f_equal length) in H. simpl in H. lia.
    + intros H st. rewrite getMyTasks_resolved. by rewrite decide_True.
  - intros H st. rewrite getMyTasks_resolved. by rewrite decide_False.
  - split.
    + intros H. destruct (decide (status rs = 200)) as [|Hne]; [done|].
      specialize (H (setStaffs (∅ :: data rs)
                       (mount {| firstName := ""; lastName := "" |} ∅ true)).2).
      rewrite getStaffs_resolved, decide_False in H by done.
      simpl in H. apply (f_equal length) in H. simpl in H. lia.
    + intros H st. rewrite getStaffs_resolved. by rewrite decide_True.
  - intros H st. rewrite getStaffs_resolved. by rewrite decide_False.
Qed.

(** When the task fetch throws, only the [loading] cell of the component
    changes; the flag the table shows is the one of the context. *)
Lemma getMyTasks_rejected_table st :
  let st' := (getMyTasks Rejected st).2 in
  loading st' = false
  ∧ table_state st' = table_state st
  ∧ notifications st' = notifications st
  ∧ myTasks st' = myTasks st.
Proof. done. Qed.

(** C5 (the code on a throwing task fetch, the context still loading):
    no toast is shown and the task list stays empty, the [loading] cell
    of the component is cleared, but the loading indicator of the table
    stays on. *)
Theorem getMyTasks_throw_keeps_table_loading :
  let st := mount Sample.user_john ∅ true in
  let st' := (getMyTasks Rejected st).2 in
  notifications st' = []
  ∧ myTasks st' = []
  ∧ loading st' = false
  ∧ isLoading (table_state st) = true
  ∧ isLoading (table_state st') = true.
Proof. done. Qed.

(** C10: called without a filter list the handler changes nothing, the
    cache included; whenever the cache differs after a call, a filter
    list was passed and it is what the cache now holds under the key of
    this screen. *)
Theorem handleCacheFilters_absent st :
  handleCacheFilters None st = (Normal (), st)
  ∧ (∀ filters,
       cache (handleCacheFilters filters st).2 ≠ cache st →
       ∃ l, filters = Some l
            ∧ cache (handleCacheFilters filters st).2
              = <[myTasksListColumnFiltersCacheKey := l]> (cache st)
            ∧ columnFilters (handleCacheFilters filters st).2 = l).
Proof.
  split; [done|]. intros [l|] Hcache; [by exists l | done].
Qed.

End FetchFacts.

(** X16: after a task fetch that resolved with status 200, the effect
    completes on the tasks of the response and derives the work facet
    from them. *)
Lemma facets_after_fetch (σ : Js.store) (r : Response (list MyTask)) (st : State) :
  status r = 200 →
  ∃ st', facet_effect σ (getMyTasks (Resolved r) st).2 = (Normal (), st')
         ∧ myTasks st' = data r
         ∧ facet_of (work st') (field_value σ "work" "title" <$> data r).
Proof.
  intros Hr.
  destruct (facet_effect_result σ (getMyTasks (Resolved r) st).2)
    as (st' & Hrun & Htasks & _ & _ & _ & _ & Hwork).
  rewrite getMyTasks_resolved, decide_True in Htasks, Hwork by done.
  simpl in Htasks, Hwork. exists st'. split_and!; [done | done |].
  rewrite Hwork. apply distinct_truthy_facet.
Qed.

(** ** The status cell *)

Section StatusCellFacts.

Variable statusOptions : list StatusOption.t.

(** In a table that lists every status once, the first entry found for
    a status is the entry configured for it. *)
Lemma first_option_for (l : string) (v : EVENT_STATUS) :
  NoDup (StatusOption.value <$> statusOptions) →
  {| StatusOption.label := l; StatusOption.value := v |} ∈ statusOptions →
  head (filter (λ o, StatusOption.value o = v) statusOptions)
  = Some {| StatusOption.label := l; StatusOption.value := v |}.
Proof.
  induction statusOptions as [|o opts IH]; intros Hnd Hin.
  { by apply elem_of_nil in Hin. }
  rewrite fmap_cons in Hnd. apply NoDup_cons in Hnd as [Ho Hnd].
  apply elem_of_cons in Hin as [<- | Hin].
  - by rewrite filter_cons_True.
  - rewrite filter_cons_False; [by apply IH|].
    intros Hv. apply Ho. rewrite Hv.
    by apply (list_elem_of_fmap_2 StatusOption.value) in Hin.
Qed.

(** C8: for a task whose status is the in-progress enum value the cell
    shows the in-progress icon with the label the status option table
    configures for that status, and neither the not-started nor the
    completed icon; for every status the icon shown is the one whose
    enum value equals the status. *)
Theorem Cell_in_progress (l : string) :
  NoDup (StatusOption.value <$> statusOptions) →
  {| StatusOption.label := l; StatusOption.value := INPROGRESS |}
    ∈ statusOptions →
  Cell statusOptions INPROGRESS
  = {| icon := Some InProgressIcon; paragraph := Some l |}
  ∧ icon (Cell statusOptions INPROGRESS) ≠ Some NotStartedIcon
  ∧ icon (Cell statusOptions INPROGRESS) ≠ Some CompletedIcon
  ∧ ∀ value,
      icon (Cell statusOptions value)
      = Some match value with
             | NOT_STARTED => NotStartedIcon
             | INPROGRESS => InProgressIcon
             | COMPLETED => CompletedIcon
             end.
Proof.
  intros Hnd Hin. split_and!.
  - unfold Cell. by rewrite (first_option_for l INPROGRESS).
  - done.
  - done.
  - by intros [].
Qed.

End StatusCellFacts.

(** ** The code on concrete inputs *)

Section Examples.

Import Sample.

(** The facets of four sample tasks: the titles of the two works, and
    no start date, since a date string has no property [start_date]. *)
Example facet_effect_sample :
  let st := (setMyTasks [task_john; task_jane; task_nobody; task_absent]
               (mount user_john ∅ true)).2 in
  work (facet_effect objects st).2 = [Js.VStr "Work A"; Js.VStr "Work B"]
  ∧ startDates (facet_effect objects st).2 = [].
Proof. by vm_compute. Qed.

(** C1 (as stated) fails: with two tasks, one assigned to John Doe and
    one to Jane Roe, selecting both derived options keeps neither row. *)
Lemma filterFn_full_selection_rejects :
  let tasks := [task_john; task_jane] in
  assigneeOptions blank tasks = ["John Doe"; "Jane Roe"]
  ∧ filterFn blank tasks task_john (assigneeOptions blank tasks) = false
  ∧ filterFn blank tasks task_jane (assigneeOptions blank tasks) = false.
Proof. by vm_compute. Qed.

Lemma filterFn_no_filtering_witness :
  (length (assigneeOptions blank [task_john]) < length ["Jane Roe"; "Ann Lee"])%nat
  ∧ filterFn blank [task_john] task_john ["Jane Roe"; "Ann Lee"] = true.
Proof.
  assert (length (assigneeOptions blank [task_john])
          < length ["Jane Roe"; "Ann Lee"])%nat as H by (vm_compute; lia).
  split; [exact H|].
  apply (filterFn_no_filtering blank [task_john] task_john
           ["Jane Roe"; "Ann Lee"]).
  right. exact H.
Defined.

(** C7 (as stated) fails: the only derived option is "John Doe"; the
    selection "Jane Roe", "Ann Lee" is not empty and does not cover the
    options, yet the row of John Doe passes although its rendered
    string contains neither selected name. *)
Lemma filterFn_long_selection_passes :
  let sel := ["Jane Roe"; "Ann Lee"] in
  assigneeOptions blank [task_john] = ["John Doe"]
  ∧ ("John Doe" ∉ sel)
  ∧ renderedValue blank task_john = "John Doe"
  ∧ forallb (λ name, JsString.includes (renderedValue blank task_john) name) sel
    = false
  ∧ filterFn blank [task_john] task_john sel = true.
Proof.
  split_and!; try by vm_compute.
  intros H. by repeat (apply elem_of_cons in H as [H | H]; [done|]);
    apply elem_of_nil in H.
Qed.

Lemma filterFn_every_selected_name_witness :
  (0 < length ["John"] ≤ length (assigneeOptions blank [task_john; task_jane]))%nat
  ∧ (filterFn blank [task_john; task_jane] task_john ["John"] = true ↔
       ∀ name, name ∈ ["John"] →
         ∃ pre post, renderedValue blank task_john = pre +:+ name +:+ post).
Proof.
  assert (0 < length ["John"]
          ≤ length (assigneeOptions blank [task_john; task_jane]))%nat as H
    by (vm_compute; lia).
  split; [exact H|].
  exact (filterFn_every_selected_name blank [task_john; task_jane] task_john
           ["John"] H).
Defined.

(** C3 (the code on a task whose assignee list is empty): no option is
    derived, the blank option included, although the filter renders the
    row of that task as the blank option. *)
Theorem assigneeOptions_empty_list_no_blank :
  assigneeOptions blank [task_nobody] = []
  ∧ (blank ∉ assigneeOptions blank [task_nobody])
  ∧ renderedValue blank task_nobody = blank.
Proof.
  split_and!; [by vm_compute | | by vm_compute].
  change (assigneeOptions blank [task_nobody]) with (@nil string).
  apply not_elem_of_nil.
Qed.

(** C9 (the code for the user John Doe, nothing cached): the initial
    filter state selects the two statuses and the name "Doe, John"; the
    row of a task assigned to John Doe is rendered "John Doe" and is
    not kept by the assigned column under that state. *)
Theorem default_filter_rejects_own_task :
  let st := mount user_john ∅ false in
  columnFilters st
  = [ {| ColumnFilter.id := "status";
         ColumnFilter.value := ["In Progress"; "Not Started"] |};
      {| ColumnFilter.id := "assigned";
         ColumnFilter.value := ["Doe, John"] |} ]
  ∧ renderedValue blank task_john = "John Doe"
  ∧ assigned_column_keeps blank [task_john] (columnFilters st) task_john
    = false.
Proof. by vm_compute. Qed.

Lemma getStaffs_failure_witness :
  status unavailable_staffs ≠ 200
  ∧ getStaffs "Something went wrong" (Resolved unavailable_staffs)
      (mount user_john ∅ true)
    = (Normal (), mount user_john ∅ true).
Proof.
  assert (status unavailable_staffs ≠ 200) as H by (simpl; lia).
  split; [exact H|].
  exact (proj2 (proj2 (getStaffs_failure "Something went wrong"
                         (mount user_john ∅ true)))
           unavailable_staffs H).
Defined.

Lemma fetch_replaces_state_iff_200_witness :
  (status not_found_tasks ≠ 200 ∧ status ok_staffs = 200)
  ∧ (getMyTasks (Resolved not_found_tasks) (mount user_john ∅ true)).2
    = mount user_john ∅ true
  ∧ ∀ st, staffs (getStaffs "Something went wrong" (Resolved ok_staffs) st).2
          = data ok_staffs.
Proof.
  assert (status not_found_tasks ≠ 200) as Ht by (simpl; lia).
  assert (status ok_staffs = 200) as Hs by reflexivity.
  pose proof (fetch_replaces_state_iff_200 "Something went wrong"
                not_found_tasks ok_staffs) as (_ & Hkeep & Hiff & _).
  split_and!; [exact Ht | exact Hs | exact (Hkeep Ht _) | exact (proj2 Hiff Hs)].
Defined.

Lemma handleCacheFilters_absent_witness :
  let st := mount user_john ∅ true in
  let filters := Some (defaultColumnFilters user_john) in
  cache (handleCacheFilters filters st).2 ≠ cache st
  ∧ ∃ l, filters = Some l
         ∧ cache (handleCacheFilters filters st).2
           = <[myTasksListColumnFiltersCacheKey := l]> (cache st)
         ∧ columnFilters (handleCacheFilters filters st).2 = l.
Proof.
  assert (cache (handleCacheFilters (Some (defaultColumnFilters user_john))
                   (mount user_john ∅ true)).2
          ≠ cache (mount user_john ∅ true)) as H
    by (simpl; apply insert_non_empty).
  split; [exact H|].
  exact (proj2 (handleCacheFilters_absent (mount user_john ∅ true)) _ H).
Defined.

Lemma Cell_in_progress_witness :
  Cell statusOptions INPROGRESS
  = {| icon := Some InProgressIcon; paragraph := Some "In Progress" |}.
Proof.
  refine (proj1 (Cell_in_progress statusOptions "In Progress" _ _)).
  - apply (bool_decide_unpack _). by vm_compute.
  - apply list_elem_of_further, list_elem_of_here.
Defined.

End Examples.

(** * Further properties of the screen *)

(** ** Strings and sets, continued *)

Section MoreStringFacts.

Implicit Types s sep : string.

Lemma append_assoc s1 s2 s3 : (s1 +:+ s2) +:+ s3 = s1 +:+ (s2 +:+ s3).
Proof.
  induction s1 as [|c s1 IH]; [done|]. by rewrite !append_cons, IH.
Qed.

Lemma truthy_append_l s1 s2 :
  JsString.truthy s1 = true → JsString.truthy (s1 +:+ s2) = true.
Proof. by destruct s1. Qed.

(** A joined array contains each of its elements. *)
Lemma join_includes sep (arr : list string) x :
  x ∈ arr → JsString.includes (JsString.join sep arr) x = true.
Proof.
  induction arr as [|y arr IH]; intros Hx.
  { by apply elem_of_nil in Hx. }
  destruct arr as [|z arr].
  - apply list_elem_of_singleton in Hx as ->. apply includes_refl.
  - change (JsString.join sep (y :: z :: arr))
      with (y +:+ sep +:+ JsString.join sep (z :: arr)).
    apply includes_spec. apply elem_of_cons in Hx as [-> | Hx].
    + by exists "", (sep +:+ JsString.join sep (z :: arr)).
    + apply IH, includes_spec in Hx as (pre & post & ->).
      exists (y +:+ sep +:+ pre), post. by rewrite !append_assoc.
Qed.

Lemma JsSet_add_prefix (s : list string) x : s `prefix_of` JsSet.add s x.
Proof. unfold JsSet.add. case_decide; [done | by apply prefix_app_r]. Qed.

Lemma JsSet_foldl_prefix xs (s : list string) :
  s `prefix_of` foldl JsSet.add s xs.
Proof.
  revert s. induction xs as [|x xs IH]; intros s; simpl; [done|].
  etrans; [apply JsSet_add_prefix | apply IH].
Qed.

End MoreStringFacts.

(** ** The assignee options and the assigned column, continued *)

Section MoreAssigneeFacts.

Variable BLANK_OPTION : string.

Implicit Types (tasks : list MyTask) (row task : MyTask) (name : string).

(** X1: the derived assignee options hold no entry twice, and they are
    exactly the full names "first last" of the assignees of the tasks,
    plus the blank option exactly when the [assignees] field of some
    task is absent (or the blank text is itself such a full name). *)
Theorem assigneeOptions_characterised tasks :
  NoDup (assigneeOptions BLANK_OPTION tasks)
  ∧ ∀ name,
      name ∈ assigneeOptions BLANK_OPTION tasks ↔
        (∃ task l a, task ∈ tasks ∧ assignees task = Some l ∧ a ∈ l
                     ∧ name = first_name (assignee a) +:+ " "
                                +:+ last_name (assignee a))
        ∨ (name = BLANK_OPTION
           ∧ ∃ task, task ∈ tasks ∧ assignees task = None).
Proof.
  split; [apply assigneeOptions_NoDup | apply assigneeOptions_elem].
Qed.

(** X2: loading further tasks only appends options: the options of a
    task list are an initial segment of the options of any extension of
    that list. *)
Theorem assigneeOptions_app_prefix tasks more :
  assigneeOptions BLANK_OPTION tasks
    `prefix_of` assigneeOptions BLANK_OPTION (tasks ++ more).
Proof.
  unfold assigneeOptions, JsSet.Array_from, JsSet.new.
  rewrite fmap_app, join_app, fmap_app, foldl_app.
  apply JsSet_foldl_prefix.
Qed.

(** X3: a row without assignees, whether the list is absent or empty,
    passes the filter when the blank option alone is selected. *)
Theorem filterFn_blank_row tasks row :
  assignees row = None ∨ assignees row = Some [] →
  filterFn BLANK_OPTION tasks row [BLANK_OPTION] = true.
Proof.
  intros Hrow. unfold filterFn.
  destruct (_ || _); [done|]. simpl.
  by rewrite renderedValue_no_assignees, includes_refl.
Qed.

Lemma renderedValue_assignees row a l :
  assignees row = Some (a :: l) →
  renderedValue BLANK_OPTION row
  = JsString.join ", " (full_name <$> a :: l).
Proof.
  unfold renderedValue, renderValue, accessorFn. intros ->. simpl.
  destruct l as [|b l]; simpl.
  - unfold full_name. by rewrite truthy_append_space.
  - by rewrite truthy_append_l by apply truthy_append_space.
Qed.

(** X4: a row passes every selection made only of full names of its
    own assignees, whatever the task list is. *)
Theorem filterFn_own_assignees tasks row l (sel : list string) :
  assignees row = Some l →
  (∀ name, name ∈ sel → ∃ a, a ∈ l ∧ name = full_name a) →
  filterFn BLANK_OPTION tasks row sel = true.
Proof.
  intros Hrow Hsel. unfold filterFn. destruct (_ || _); [done|].
  apply forallb_forall. intros name Hname%list_elem_of_In.
  destruct (Hsel name Hname) as (a & Ha & ->).
  destruct l as [|b l]; [by apply elem_of_nil in Ha|].
  rewrite (renderedValue_assignees _ _ _ Hrow).
  by apply join_includes, list_elem_of_fmap_2.
Qed.

(** X5: while the selection is not longer than the option list, the
    filter is a conjunction: a row passes two selections taken together
    exactly when it passes each of them. *)
Theorem filterFn_and_semantics tasks row (sel1 sel2 : list string) :
  sel1 ≠ [] → sel2 ≠ [] →
  (length (sel1 ++ sel2) ≤ length (assigneeOptions BLANK_OPTION tasks))%nat →
  filterFn BLANK_OPTION tasks row (sel1 ++ sel2)
  = filterFn BLANK_OPTION tasks row sel1
    && filterFn BLANK_OPTION tasks row sel2.
Proof.
  intros H1 H2 Hlen. rewrite length_app in Hlen.
  destruct sel1 as [|x1 sel1]; [done|]. destruct sel2 as [|x2 sel2]; [done|].
  rewrite !filterFn_unfold by (rewrite ?length_app; simpl in *; lia).
  apply forallb_app.
Qed.

End MoreAssigneeFacts.

(** ** The fetches, continued *)

Section MoreFetchFacts.

Variable COMMON_ERROR_MESSAGE : string.

Implicit Types (st : State).

(** X6: however the task call settles, [getMyTasks] completes normally
    with the empty list, shows no toast, and leaves the staff list, the
    filters, the cache, the facet lists and the loading flag of the
    context as they were. *)
Theorem getMyTasks_quiet (service : Promise (Response (list MyTask))) st :
  let st' := (getMyTasks service st).2 in
  (getMyTasks service st).1 = Normal []
  ∧ notifications st' = notifications st
  ∧ staffs st' = staffs st
  ∧ columnFilters st' = columnFilters st
  ∧ cache st' = cache st
  ∧ ctx_loading st' = ctx_loading st
  ∧ (startDates st', endDates st', progress st', assigned st', work st')
    = (startDates st, endDates st, progress st, assigned st, work st).
Proof.
  destruct service as [r|]; [|done].
  unfold getMyTasks, try_catch, mbind, M_bind, await. simpl.
  by destruct (decide (status r = 200)).
Qed.

(** X7: however the staff call settles, [getStaffs] completes normally
    and leaves the task list, the [loading] cell, the filters, the cache
    and the facet lists as they were; a toast is added exactly when the
    call rejects, and then it is the only change. *)
Theorem getStaffs_frame (service : Promise (Response (list Staff))) st :
  let st' := (getStaffs COMMON_ERROR_MESSAGE service st).2 in
  (getStaffs COMMON_ERROR_MESSAGE service st).1 = Normal ()
  ∧ myTasks st' = myTasks st
  ∧ loading st' = loading st
  ∧ columnFilters st' = columnFilters st
  ∧ cache st' = cache st
  ∧ (startDates st', endDates st', progress st', assigned st', work st')
    = (startDates st, endDates st, progress st, assigned st, work st)
  ∧ (notifications st' ≠ notifications st ↔ service = Rejected)
  ∧ (service = Rejected → staffs st' = staffs st).
Proof.
  destruct service as [r|].
  - rewrite getStaffs_resolved. simpl.
    destruct (decide (status r = 200)); by split_and!.
  - rewrite getStaffs_rejected. simpl. split_and!; try done.
    split; [done|]. intros _ H. apply (f_equal length) in H.
    rewrite length_app in H. simpl in H. lia.
Qed.


(** X9: a task call that resolves, with whatever status, leaves the
    [loading] cell alone; on the freshly mounted component the cell is
    therefore still [true] after the tasks have been loaded. *)
Theorem getMyTasks_resolved_keeps_loading (r : Response (list MyTask)) st :
  loading (getMyTasks (Resolved r) st).2 = loading st
  ∧ ∀ user cached ctxLoading,
      loading (getMyTasks (Resolved r) (mount user cached ctxLoading)).2 = true.
Proof.
  split; [|intros user cached ctxLoading];
    rewrite getMyTasks_resolved; by case_decide.
Qed.

(** X10: a filter list handed to the cache handler, the empty list
    included, becomes the filter state, is stored under the key of this
    screen without touching any other key, and is what the next mount
    starts from in place of the default. *)
Theorem handleCacheFilters_rehydrates (l : list ColumnFilter.t) st :
  let st' := (handleCacheFilters (Some l) st).2 in
  columnFilters st' = l
  ∧ cache st' !! myTasksListColumnFiltersCacheKey = Some l
  ∧ (∀ key, key ≠ myTasksListColumnFiltersCacheKey →
            cache st' !! key = cache st !! key)
  ∧ ∀ user ctxLoading, columnFilters (mount user (cache st') ctxLoading) = l.
Proof.
  simpl. split_and!.
  - done.
  - apply lookup_insert_eq.
  - intros key Hkey. by apply lookup_insert_ne.
  - intros user ctxLoading. unfold useCachedState_initial.
    by rewrite lookup_insert_eq.
Qed.

End MoreFetchFacts.

(** ** The status column, continued *)

Section MoreStatusFacts.

Variable BLANK_OPTION : string.
Variable statusOptions : list StatusOption.t.

Lemma find_head_filter (v : EVENT_STATUS) (opts : list StatusOption.t) :
  Js.find (λ o, bool_decide (StatusOption.value o = v)) opts
  = head (filter (λ o, StatusOption.value o = v) opts).
Proof.
  induction opts as [|o opts IH]; [done|]. simpl.
  destruct (decide (StatusOption.value o = v)) as [Hv | Hv].
  - by rewrite bool_decide_eq_true_2, filter_cons_True.
  - by rewrite bool_decide_eq_false_2, filter_cons_False.
Qed.

(** X11: the cell shows a different icon for each status; the text
    beside it is the label of an entry of the option table for that
    status, and it is missing exactly when the table has no entry for
    the status. *)
Theorem Cell_icon_and_label (value : EVENT_STATUS) :
  (∀ other, icon (Cell statusOptions other) = icon (Cell statusOptions value)
            → other = value)
  ∧ (∀ l, paragraph (Cell statusOptions value) = Some l →
          {| StatusOption.label := l; StatusOption.value := value |}
            ∈ statusOptions)
  ∧ (paragraph (Cell statusOptions value) = None ↔
       ∀ o, o ∈ statusOptions → StatusOption.value o ≠ value).
Proof.
  split_and!.
  - intros other. by destruct other, value.
  - intros l. unfold Cell. simpl.
    destruct (head _) as [o|] eqn:Hhead; [|done]. intros [= <-].
    apply head_Some_elem_of, list_elem_of_filter in Hhead as [<- Ho].
    by destruct o.
  - unfold Cell. simpl. rewrite fmap_None, head_None. split.
    + intros Hnil o Ho Hv.
      assert (o ∈ filter (λ o, StatusOption.value o = value) statusOptions)
        as Hin by by apply list_elem_of_filter.
      rewrite Hnil in Hin. by apply elem_of_nil in Hin.
    + intros Hnone. apply elem_of_nil_inv. intros o.
      rewrite list_elem_of_filter. intros [Hv Ho]. by apply (Hnone o).
Qed.

(** X12: the label under which a status is offered in the status
    filter is the text its cell shows, and the blank option when the
    cell shows none. *)
Theorem statusFilterLabel_agrees_with_Cell (value : EVENT_STATUS) :
  statusFilterLabel BLANK_OPTION statusOptions value
  = default BLANK_OPTION (paragraph (Cell statusOptions value)).
Proof.
  unfold statusFilterLabel, Cell. simpl. by rewrite find_head_filter.
Qed.

End MoreStatusFacts.

(** ** The facet effect, continued *)

Section MoreFacetFacts.

Variable σ : Js.store.

Implicit Types (st : State) (tasks more : list MyTask).

Lemma first_occurrences_app seen l1 l2 :
  first_occurrences seen (l1 ++ l2)
  = first_occurrences seen l1 ++ first_occurrences (reverse l1 ++ seen) l2.
Proof.
  revert seen. induction l1 as [|x l1 IH]; intros seen; [done|].
  simpl. rewrite IH, reverse_cons, <-!app_assoc. done.
Qed.

(** X13: a facet list only grows at its end when tasks are added at the
    end of the task list, and what is added was not in it before. *)
Theorem codes_of_app key tasks more :
  ∃ codes added,
    codes_of σ key tasks = Some codes
    ∧ codes_of σ key (tasks ++ more) = Some (codes ++ added)
    ∧ ∀ v, v ∈ added → v ∉ codes.
Proof.
  rewrite !codes_of_spec. unfold distinct_truthy.
  rewrite fmap_app, first_occurrences_app, filter_app.
  eexists _, _. split_and!; [done | done |].
  intros v [_ Hv]%list_elem_of_filter [_ Hc]%list_elem_of_filter.
  apply first_occurrences_elem in Hv as [_ Hv].
  apply first_occurrences_elem in Hc as [Hc _].
  apply Hv. rewrite app_nil_r. by apply elem_of_reverse.
Qed.

(** X14: a key under which no task holds an object, as a date kept as a
    string or a field that is missing, yields the empty facet list,
    whatever the values are. *)
Theorem codes_of_primitive_field key tasks :
  (∀ w o, w ∈ tasks → index w key ≠ Js.VObj o) →
  codes_of σ key tasks = Some [].
Proof.
  intros Hprim. rewrite codes_of_spec.
  by rewrite distinct_truthy_primitive_field.
Qed.

Lemma facet_effect_run st :
  facet_effect σ st
  = (Normal (),
     {| columnFilters := columnFilters st; staffs := staffs st;
        loading := loading st; myTasks := myTasks st;
        startDates :=
          distinct_truthy (field_value σ "start_date" "start_date" <$> myTasks st);
        endDates :=
          distinct_truthy (field_value σ "end_date" "end_date" <$> myTasks st);
        progress :=
          distinct_truthy (field_value σ "progress" "progress" <$> myTasks st);
        assigned :=
          distinct_truthy (field_value σ "assigned" "assigned" <$> myTasks st);
        work := distinct_truthy (field_value σ "work" "title" <$> myTasks st);
        cache := cache st; notifications := notifications st;
        ctx_loading := ctx_loading st |}).
Proof.
  destruct (call_setter_known) as (Hs & He & Hp & Ha & Hw).
  unfold facet_effect, Object_keys, codeTypes.
  unfold mbind, M_bind, gets. simpl.
  rewrite !codes_of_spec, Hs, He, Hp, Ha, Hw. reflexivity.
Qed.

(** X15: the effect depends on the task list alone and touches the five
    facet lists alone: it leaves the tasks, the staff list, the filters,
    the cache, the toasts and both loading flags as they were, and
    running it again changes nothing. *)
Theorem facet_effect_idempotent st :
  let st' := (facet_effect σ st).2 in
  facet_effect σ st' = (Normal (), st')
  ∧ myTasks st' = myTasks st
  ∧ staffs st' = staffs st
  ∧ columnFilters st' = columnFilters st
  ∧ cache st' = cache st
  ∧ notifications st' = notifications st
  ∧ loading st' = loading st
  ∧ ctx_loading st' = ctx_loading st.
Proof.
  simpl. rewrite (facet_effect_run st). simpl.
  split_and!; try done. by rewrite facet_effect_run.
Qed.

End MoreFacetFacts.

(** ** The further properties on concrete inputs *)

Section MoreExamples.

Import Sample.

Lemma filterFn_blank_row_witness :
  (assignees task_nobody = None ∨ assignees task_nobody = Some [])
  ∧ filterFn blank [task_john; task_nobody] task_nobody [blank] = true.
Proof.
  assert (assignees task_nobody = None ∨ assignees task_nobody = Some [])
    as H by (by right).
  split; [exact H|].
  exact (filterFn_blank_row blank [task_john; task_nobody] task_nobody H).
Defined.

Lemma filterFn_own_assignees_witness :
  filterFn blank [task_john; task_pair] task_pair ["Jane Roe"; "John Doe"]
  = true.
Proof.
  apply (filterFn_own_assignees blank [task_john; task_pair] task_pair
           [john; jane] ["Jane Roe"; "John Doe"]); [reflexivity|].
  intros name Hname.
  apply elem_of_cons in Hname as [-> | Hname].
  { exists jane. split; [apply list_elem_of_further, list_elem_of_here | done]. }
  apply list_elem_of_singleton in Hname as ->.
  exists john. split; [apply list_elem_of_here | done].
Defined.

Lemma filterFn_and_semantics_witness :
  filterFn blank [task_john; task_jane] task_pair (["John"] ++ ["Roe"])
  = filterFn blank [task_john; task_jane] task_pair ["John"]
    && filterFn blank [task_john; task_jane] task_pair ["Roe"].
Proof.
  apply (filterFn_and_semantics blank [task_john; task_jane] task_pair
           ["John"] ["Roe"]); [done | done | vm_compute; lia].
Defined.

Lemma getStaffs_frame_witness :
  staffs (getStaffs "Something went wrong" Rejected (mount user_john ∅ true)).2
  = staffs (mount user_john ∅ true).
Proof.
  pose proof (getStaffs_frame "Something went wrong" Rejected
                (mount user_john ∅ true)) as H.
  simpl in H. destruct H as (_ & _ & _ & _ & _ & _ & _ & H).
  exact (H eq_refl).
Defined.

Lemma handleCacheFilters_rehydrates_witness :
  cache (handleCacheFilters (Some []) (mount user_john ∅ true)).2
    !! "works-listing-column-filters"
  = cache (mount user_john ∅ true) !! "works-listing-column-filters".
Proof.
  pose proof (handleCacheFilters_rehydrates [] (mount user_john ∅ true)) as H.
  simpl in H. destruct H as (_ & _ & H & _).
  apply H. by vm_compute.
Defined.

Lemma Cell_icon_and_label_witness :
  {| StatusOption.label := "Completed"; StatusOption.value := COMPLETED |}
    ∈ statusOptions.
Proof.
  pose proof (Cell_icon_and_label statusOptions COMPLETED) as (_ & H & _).
  exact (H "Completed" eq_refl).
Defined.

Lemma codes_of_app_witness :
  ∃ codes added,
    codes_of objects "work" [task_john; task_nobody] = Some codes
    ∧ codes_of objects "work" ([task_john; task_nobody] ++ [task_jane; task_pair])
      = Some (codes ++ added)
    ∧ ∀ v, v ∈ added → v ∉ codes.
Proof.
  exact (codes_of_app objects "work" [task_john; task_nobody]
           [task_jane; task_pair]).
Defined.

Lemma codes_of_primitive_field_witness :
  codes_of objects "start_date" [task_john; task_jane; task_absent] = Some [].
Proof.
  apply (codes_of_primitive_field objects "start_date"
           [task_john; task_jane; task_absent]).
  intros w o Hw.
  repeat (apply elem_of_cons in Hw as [-> | Hw]; [by vm_compute|]).
  by apply elem_of_nil in Hw.
Defined.

Lemma facets_after_fetch_witness :
  ∃ st',
    facet_effect objects
      (getMyTasks (Resolved ok_tasks) (mount user_john ∅ true)).2
    = (Normal (), st')
    ∧ myTasks st' = data ok_tasks
    ∧ facet_of (work st')
        (field_value objects "work" "title" <$> data ok_tasks).
Proof.
  exact (facets_after_fetch objects ok_tasks (mount user_john ∅ true) eq_refl).
Defined.

End MoreExamples.
